(** * Minimum-distance estimators for random bipolar vectors

    A shallow embedding of [analytic_01.py], [sample.py] and [sample_2.py]:
    the binomial tail of the Hamming distance of two random vectors, the
    union-bound estimate built on it, the binary search that inverts the
    estimate, the parameter sweep and the printing of its table, and the two
    Monte Carlo simulations.

    Number model.  A Python [int] is a [Z].  A Python [float] is an exact
    rational [Q]: rounding, overflow and underflow of binary64 are not
    modelled, and two floats are the same number when they are [Qeq].
    [scipy.special.comb] is taken by its contract, the binomial coefficient,
    zero outside [0 <= k <= N].  The random draws of [numpy.random.choice]
    are an oracle handed to the simulation. *)

From Stdlib Require Import ZArith QArith Qcanon Qminmax Qpower Lia Lqa List Bool
  Ascii String.
From Equations Require Import Equations.
From stdpp Require Import gmap list strings pretty sorting.
Import ListNotations.
Local Open Scope Z_scope.

(** ** Python results *)

(** The exceptions the embedded code can raise. *)
Inductive exn : Type :=
| TypeError
| ZeroDivisionError
| IndexError
| KeyError.

(** The outcome of a call: a value, or a raised exception. *)
Inductive result (A : Type) : Type :=
| Ok (a : A)
| Raise (e : exn).
Arguments Ok {A} a.
Arguments Raise {A} e.

#[export] Instance result_ret : MRet result := fun A a => Ok a.
#[export] Instance result_bind : MBind result := fun A B f r =>
  match r with
  | Ok a => f a
  | Raise e => Raise e
  end.


Definition inspect {A} (a : A) : {b | a = b} := exist _ a eq_refl.

(** [range(a, b)] and [range(n)]. *)
Definition range2 (a b : Z) : list Z :=
  map (fun i => a + Z.of_nat i) (seq 0 (Z.to_nat (b - a))).

Definition range (n : Z) : list Z := range2 0 n.

(** [l[i]] on a sequence: negative indices count from the end, an index out
    of range raises [IndexError]. *)
Definition getitem {A} (l : list A) (i : Z) : result A :=
  let i' := if i <? 0 then i + Z.of_nat (length l) else i in
  if i' <? 0 then Raise IndexError
  else match l !! Z.to_nat i' with
       | Some x => Ok x
       | None => Raise IndexError
       end.

(** [d[k]] on a dict: a missing key raises [KeyError]. *)
Definition dict_get `{Countable K} {V} (d : gmap K V) (k : K) : result V :=
  match d !! k with
  | Some v => Ok v
  | None => Raise KeyError
  end.

(** [max(a, b)] of Python: the second argument wins only when it is
    strictly greater. *)
Definition py_max (a b : Q) : Q := if Qle_bool b a then a else b.

(** [s * n] on a string. *)
Fixpoint str_repeat (s : string) (n : nat) : string :=
  match n with
  | O => ""
  | S n' => s +:+ str_repeat s n'
  end.

(** [format(x, '^width')] of a text: centred, the odd space on the right. *)
Definition centre (s : string) (width : nat) : string :=
  let pad := (width - String.length s)%nat in
  let left := (pad / 2)%nat in
  str_repeat " " left +:+ s +:+ str_repeat " " (pad - left).

(** [sorted(d.keys())] for integer keys and for float keys. *)
Definition sorted_keys_Z {V} (d : gmap Z V) : list Z :=
  merge_sort Z.le (elements (dom d)).

Definition sorted_keys_Qc {V} (d : gmap Qc V) : list Qc :=
  merge_sort Qcle (elements (dom d)).

(** ** scipy.special.comb *)

(** The binomial coefficient, by Pascal's rule. *)
Fixpoint binomial (n k : nat) {struct n} : nat :=
  match n, k with
  | _, O => 1
  | O, S _ => 0
  | S n', S k' => binomial n' k' + binomial n' (S k')
  end%nat.

(** [comb(N, k)]: zero when [k > N], [N < 0] or [k < 0]. *)
Definition comb (N k : Z) : Z :=
  if (k <=? N) && (0 <=? N) && (0 <=? k)
  then Z.of_nat (binomial (Z.to_nat N) (Z.to_nat k))
  else 0.

(** ** analytic_01.py *)

Module analytic_01.

(** The value returned by [probability_all_vectors_min_distance]: a
    dimension in inverse mode, a probability in forward mode. *)
Inductive value : Type :=
| Dim (D : Z)
| Prob (p : Q).

(** The loop of [probability_distance_less_than] over the remaining values
    of [k].  [comb(D, k)] raises [TypeError] when [D] is [None]. *)
Fixpoint tail_loop (D : option Z) (ks : list Z) (p_too_close : Q) : result Q :=
  match ks with
  | [] => Ok p_too_close
  | k :: ks' =>
      match D with
      | None => Raise TypeError
      | Some d =>
          tail_loop D ks' (p_too_close + inject_Z (comb d k) * (1 # 2) ^ d)%Q
      end
  end.

Definition probability_distance_less_than (D : option Z) (min_distance : Z)
  : result Q :=
  tail_loop D (range min_distance) 0%Q.

(** [prob] of the search loop at [mid_D]:
    [1 - (N * (N-1) / 2) * probability_distance_less_than(mid_D, min_distance)]. *)
Definition prob_at (N min_distance mid_D : Z) : result Q :=
  p ← probability_distance_less_than (Some mid_D) min_distance;
  mret (1 - (inject_Z (N * (N - 1)) / 2) * p)%Q.

(** One iteration of the [while] loop: the new [(low_D, high_D)]. *)
Definition loop_body (N min_distance : Z) (success_probability : Q)
    (low_D high_D : Z) : result (Z * Z) :=
  let mid_D := (low_D + high_D) / 2 in
  prob ← prob_at N min_distance mid_D;
  mret (if Qle_bool success_probability prob
        then (low_D, mid_D - 1)
        else (mid_D + 1, high_D)).

(** [while low_D <= high_D: ...; return low_D]. *)
Equations? binary_search (N min_distance : Z) (success_probability : Q)
    (low_D high_D : Z) : result Z
  by wf (Z.to_nat (high_D - low_D + 1)) lt :=
  binary_search N m tau low_D high_D with inspect (low_D <=? high_D) := {
    | exist _ true Hguard with inspect (loop_body N m tau low_D high_D) := {
        | exist _ (Ok (low', high')) Hbody => binary_search N m tau low' high'
        | exist _ (Raise e) _ => Raise e }
    | exist _ false _ => Ok low_D }.
Proof.
  apply Z.leb_le in Hguard. revert Hbody. unfold loop_body.
  destruct (prob_at N m ((low_D + high_D) / 2)) as [prob|e]; simpl;
    [|discriminate].
  assert (low_D <= (low_D + high_D) / 2) by (apply Z.div_le_lower_bound; lia).
  assert ((low_D + high_D) / 2 <= high_D) by (apply Z.div_le_upper_bound; lia).
  destruct (Qle_bool tau prob); intros [= <- <-]; lia.
Qed.

(** A finite run of the same loop, iteration by iteration:
    [while_run n (low, high) d] when the loop started at [(low, high)] leaves
    after [n] iterations with [low_D = d]. *)
Inductive while_run (N min_distance : Z) (success_probability : Q)
  : nat -> Z * Z -> Z -> Prop :=
| while_exit low_D high_D :
    high_D < low_D ->
    while_run N min_distance success_probability 0 (low_D, high_D) low_D
| while_iter n low_D high_D st d :
    low_D <= high_D ->
    loop_body N min_distance success_probability low_D high_D = Ok st ->
    while_run N min_distance success_probability n st d ->
    while_run N min_distance success_probability (S n) (low_D, high_D) d.

Definition probability_all_vectors_min_distance (N : Z) (D : option Z)
    (min_distance : Z) (success_probability : option Q) : result value :=
  match success_probability with
  | Some tau =>
      let low_D := min_distance in
      let high_D := 1000 in
      low_D ← binary_search N min_distance tau low_D high_D;
      mret (Dim low_D)
  | None =>
      let num_pairs := comb N 2 in
      p_too_close ← probability_distance_less_than D min_distance;
      let p_at_least_one_too_close := (inject_Z num_pairs * p_too_close)%Q in
      mret (Prob (py_max 0 (1 - p_at_least_one_too_close)))
  end.

(** The nested dict of the sweep, with the targets as exact numbers, and the
    calls made so far (a ghost record of the inverse-mode invocations). *)
Record sweep_state : Type := {
  results : gmap Z (gmap Z (gmap Qc value));
  calls : list (Z * Z * Q)
}.

(** [for prob in target_probabilities: ...] *)
Fixpoint prob_loop (N min_dist : Z) (target_probabilities : list Q)
    (st : sweep_state) : result sweep_state :=
  match target_probabilities with
  | [] => Ok st
  | prob :: rest =>
      D ← probability_all_vectors_min_distance N None min_dist (Some prob);
      results_N ← dict_get (results st) N;
      results_N_min_dist ← dict_get results_N min_dist;
      prob_loop N min_dist rest
        {| results :=
             <[N := <[min_dist := <[Q2Qc prob := D]> results_N_min_dist]>
                      results_N]> (results st);
           calls := calls st ++ [(N, min_dist, prob)] |}
  end.

(** [for min_dist in min_distances: ...] *)
Fixpoint min_dist_loop (N : Z) (min_distances : list Z)
    (target_probabilities : list Q) (st : sweep_state) : result sweep_state :=
  match min_distances with
  | [] => Ok st
  | min_dist :: rest =>
      results_N ← dict_get (results st) N;
      st' ← prob_loop N min_dist target_probabilities
              {| results := <[N := <[min_dist := ∅]> results_N]> (results st);
                 calls := calls st |};
      min_dist_loop N rest target_probabilities st'
  end.

(** [for N in N_values: ...] *)
Fixpoint N_loop (N_values min_distances : list Z)
    (target_probabilities : list Q) (st : sweep_state) : result sweep_state :=
  match N_values with
  | [] => Ok st
  | N :: rest =>
      st' ← min_dist_loop N min_distances target_probabilities
              {| results := <[N := ∅]> (results st); calls := calls st |};
      N_loop rest min_distances target_probabilities st'
  end.

Definition calculate_required_dimensions_run (N_values min_distances : list Z)
    (target_probabilities : list Q) : result sweep_state :=
  N_loop N_values min_distances target_probabilities
    {| results := ∅; calls := [] |}.

Definition calculate_required_dimensions (N_values min_distances : list Z)
    (target_probabilities : list Q)
  : result (gmap Z (gmap Z (gmap Qc value))) :=
  st ← calculate_required_dimensions_run N_values min_distances
         target_probabilities;
  mret (results st).

Section Printing.
(** [f"{prob:.3f}"] of a float key and [f"{x:^8}"] of a float cell: the
    decimal rendering of a binary float is not modelled. *)
Variable format_3f : Qc -> string.
Variable format_float_8 : Q -> string.

(** [f"{x:^8}"] of a cell. *)
Definition format_cell (v : value) : string :=
  match v with
  | Dim d => centre (pretty d) 8
  | Prob p => format_float_8 p
  end.

(** [header = "Min Distance |"; for prob in ...: header += f" p={prob:.3f} |"] *)
Definition header_line (target_probabilities : list Qc) : string :=
  foldl (fun header prob => header +:+ " p=" +:+ format_3f prob +:+ " |")
    "Min Distance |" target_probabilities.

(** [for prob in target_probabilities: row += f" {results[N][min_dist][prob]:^8} |"] *)
Fixpoint row_loop (results : gmap Z (gmap Z (gmap Qc value))) (N min_dist : Z)
    (target_probabilities : list Qc) (row : string) : result string :=
  match target_probabilities with
  | [] => Ok row
  | prob :: rest =>
      results_N ← dict_get results N;
      results_N_min_dist ← dict_get results_N min_dist;
      x ← dict_get results_N_min_dist prob;
      row_loop results N min_dist rest (row +:+ " " +:+ format_cell x +:+ " |")
  end.

(** [for min_dist in min_distances: ...; print(row)], with the lines printed
    so far. *)
Fixpoint rows_loop (results : gmap Z (gmap Z (gmap Qc value))) (N : Z)
    (min_distances : list Z) (target_probabilities : list Qc)
    (out : list string) : list string * result unit :=
  match min_distances with
  | [] => (out, Ok tt)
  | min_dist :: rest =>
      match row_loop results N min_dist target_probabilities
              (centre (pretty min_dist) 11 +:+ " |") with
      | Ok row => rows_loop results N rest target_probabilities (out ++ [row])
      | Raise e => (out, Raise e)
      end
  end.

(** [for N in N_values: ...] *)
Fixpoint tables_loop (results : gmap Z (gmap Z (gmap Qc value)))
    (N_values min_distances : list Z) (target_probabilities : list Qc)
    (out : list string) : list string * result unit :=
  match N_values with
  | [] => (out, Ok tt)
  | N :: rest =>
      let header := header_line target_probabilities in
      let out :=
        out ++ ["N = " +:+ pretty N; str_repeat "-" 80; header;
                str_repeat "-" (String.length header)] in
      match rows_loop results N min_distances target_probabilities out with
      | (out, Ok _) =>
          tables_loop results rest min_distances target_probabilities
            (out ++ [str_repeat "-" 80; ""])
      | (out, Raise e) => (out, Raise e)
      end
  end.

(** [print_results_table(results)]: the lines printed, one per [print], and
    how the call ends. *)
Definition print_results_table (results : gmap Z (gmap Z (gmap Qc value)))
  : list string * result unit :=
  let N_values := sorted_keys_Z results in
  match getitem N_values 0 with
  | Raise e => ([], Raise e)
  | Ok first_N =>
      match dict_get results first_N with
      | Raise e => ([], Raise e)
      | Ok results_first =>
          let min_distances := sorted_keys_Z results_first in
          match getitem min_distances 0 with
          | Raise e => ([], Raise e)
          | Ok first_min_dist =>
              match dict_get results_first first_min_dist with
              | Raise e => ([], Raise e)
              | Ok first_cell =>
                  let target_probabilities := sorted_keys_Qc first_cell in
                  tables_loop results N_values min_distances
                    target_probabilities
                    [String "010"%char
                       "Required dimensions (D) for different parameters:";
                     str_repeat "-" 80]
              end
          end
      end
  end.
End Printing.

End analytic_01.

(** ** sample.py *)

Module sample.

(** The success test of one trial:
    [len(set(tuple(v) for v in vectors)) == N]. *)
Definition all_distinct (vectors : list (list Z)) (N : Z) : bool :=
  Z.of_nat (size (list_to_set vectors : gset (list Z))) =? N.

Section Simulation.
(** [choice t N D]: the array drawn by
    [np.random.choice([-1, 1], size=(N, D))] in trial [t]. *)
Variable choice : nat -> Z -> Z -> result (list (list Z)).

(** [for _ in tqdm(range(num_trials)): ...] *)
Fixpoint trials_loop (trials : list nat) (N D success_count : Z) : result Z :=
  match trials with
  | [] => Ok success_count
  | t :: rest =>
      vectors ← choice t N D;
      trials_loop rest N D
        (if all_distinct vectors N then success_count + 1 else success_count)
  end.

Definition simulate_vector_distinctness (N D num_trials : Z) : result Q :=
  success_count ← trials_loop (seq 0 (Z.to_nat num_trials)) N D 0;
  if num_trials =? 0 then Raise ZeroDivisionError
  else mret (inject_Z success_count / inject_Z num_trials)%Q.
End Simulation.

End sample.

(** ** sample_2.py *)

Module sample_2.

(** [np.sum(v1 != v2)] on two rows of one array. *)
Definition hamming_distance (v1 v2 : list Z) : Z :=
  foldr Z.add 0 (zip_with (fun a b => if a =? b then 0 else 1) v1 v2).

(** [for j in range(i+1, N): ...], over the remaining values of [j]; the
    result is [all_meet_min_distance] when the loop is left. *)
Fixpoint inner_loop (vectors : list (list Z)) (i : Z) (js : list Z)
    (min_distance : Z) : result bool :=
  match js with
  | [] => Ok true
  | j :: rest =>
      v_i ← getitem vectors i;
      v_j ← getitem vectors j;
      let distance := hamming_distance v_i v_j in
      if distance <? min_distance then Ok false
      else inner_loop vectors i rest min_distance
  end.

(** [for i in range(N): ...], over the remaining values of [i]. *)
Fixpoint outer_loop (vectors : list (list Z)) (N : Z) (idx : list Z)
    (min_distance : Z) : result bool :=
  match idx with
  | [] => Ok true
  | i :: rest =>
      all_meet_min_distance ←
        inner_loop vectors i (range2 (i + 1) N) min_distance;
      if negb all_meet_min_distance then Ok false
      else outer_loop vectors N rest min_distance
  end.

(** The success test of one trial. *)
Definition all_meet_min_distance (vectors : list (list Z)) (N min_distance : Z)
  : result bool :=
  outer_loop vectors N (range N) min_distance.

Section Simulation.
Variable choice : nat -> Z -> Z -> result (list (list Z)).

Fixpoint trials_loop (trials : list nat) (N D min_distance success_count : Z)
  : result Z :=
  match trials with
  | [] => Ok success_count
  | t :: rest =>
      vectors ← choice t N D;
      ok ← all_meet_min_distance vectors N min_distance;
      trials_loop rest N D min_distance
        (if ok : bool then success_count + 1 else success_count)
  end.

Definition simulate_vector_distinctness (N D min_distance num_trials : Z)
  : result Q :=
  success_count ←
    trials_loop (seq 0 (Z.to_nat num_trials)) N D min_distance 0;
  if num_trials =? 0 then Raise ZeroDivisionError
  else mret (inject_Z success_count / inject_Z num_trials)%Q.
End Simulation.

End sample_2.

(** An array of shape [(N, D)]: [N] rows of [D] coordinates. *)
Definition has_shape (vectors : list (list Z)) (N D : Z) : Prop :=
  Z.of_nat (length vectors) = N /\
  Forall (fun v => Z.of_nat (length v) = D) vectors.

(** ** The public operations *)



Definition requiredDimension (N min_distance : Z) (tau : Q)
  : result analytic_01.value :=
  analytic_01.probability_all_vectors_min_distance N None min_distance
    (Some tau).

Definition sweep := analytic_01.calculate_required_dimensions.

Definition monteCarloEstimate := sample_2.simulate_vector_distinctness.


(** ** The closed forms of the specification *)

Module Spec.




End Spec.

(** ** Vocabulary of the proofs *)

Import analytic_01.


(** One iteration of the tail loop over an integer [D]. *)
Definition tail_step (d : Z) (p : Q) (k : Z) : Q :=
  (p + inject_Z (comb d k) * (1 # 2) ^ d)%Q.

(** The value [probability_distance_less_than] returns at an integer [D]. *)
Definition tail_value (D min_distance : Z) : Q :=
  fold_left (tail_step D) (range min_distance) 0%Q.

(** The test of the search loop at [mid_D = D]. *)
Definition good (N m : Z) (tau : Q) (D : Z) : bool :=
  Qle_bool tau (1 - (inject_Z (N * (N - 1)) / 2) * tail_value D m)%Q.


(** [pair_ok vectors m i j]: rows [i] and [j] exist and are at Hamming
    distance at least [m]. *)
Definition pair_ok (vectors : list (list Z)) (m i j : Z) : Prop :=
  exists v_i v_j,
    vectors !! Z.to_nat i = Some v_i /\ vectors !! Z.to_nat j = Some v_j /\
    m <= sample_2.hamming_distance v_i v_j.


(** The dimension inverse mode returns at [(N, m, tau)]. *)
Definition dim_of (N m : Z) (tau : Q) : value :=
  match requiredDimension N m tau with
  | Ok v => v
  | Raise _ => Dim 0
  end.

(** The dicts the three loops build. *)
Definition cell_of (N m : Z) (probs : list Q) (cell : gmap Qc value)
  : gmap Qc value :=
  foldl (fun c p => <[Q2Qc p := dim_of N m p]> c) cell probs.

Definition row_of (N : Z) (ms : list Z) (probs : list Q)
    (row : gmap Z (gmap Qc value)) : gmap Z (gmap Qc value) :=
  foldl (fun r m => <[m := cell_of N m probs ∅]> r) row ms.

Definition table_of (Ns ms : list Z) (probs : list Q)
    (res : gmap Z (gmap Z (gmap Qc value))) : gmap Z (gmap Z (gmap Qc value)) :=
  foldl (fun t N => <[N := row_of N ms probs ∅]> t) res Ns.

(** Every combination, in the order the loops visit them. *)
Definition combinations (Ns ms : list Z) (probs : list Q) : list (Z * Z * Q) :=
  N ← Ns; m ← ms; p ← probs; [(N, m, p)].

(** A dict filled by a loop of insertions [d[key x] = val x]. *)
Definition fill {A K V : Type} `{Countable K} (key : A -> K) (val : A -> V)
    (init : gmap K V) (xs : list A) : gmap K V :=
  foldl (fun acc x => <[key x := val x]> acc) init xs.

(** Every vector of [D] coordinates in {-1, +1}. *)
Fixpoint bipolar_vectors (D : nat) : list (list Z) :=
  match D with
  | O => [[]]
  | S D' =>
      map (cons (-1)) (bipolar_vectors D') ++ map (cons 1) (bipolar_vectors D')
  end.

(** A vector with every coordinate -1 or +1. *)
Definition bipolar (v : list Z) : Prop := Forall (fun x => x = -1 \/ x = 1) v.

(** The number of elements of a list that pass a test. *)
Definition count_if {A} (f : A -> bool) (l : list A) : nat :=
  length (List.filter f l).



(** Every list of [n] elements of [L]. *)
Fixpoint arrays_over (L : list (list Z)) (n : nat) : list (list (list Z)) :=
  match n with
  | O => [[]]
  | S n' => flat_map (fun v => map (cons v) (arrays_over L n')) L
  end.

(** Every array of [N] vectors of [D] bipolar coordinates: the equally
    likely outcomes of one draw. *)
Definition bipolar_arrays (N D : nat) : list (list (list Z)) :=
  arrays_over (bipolar_vectors D) N.

(** An array passes when the pairwise test of [sample_2.py] returns [True]. *)
Definition passes (N m : Z) (vs : list (list Z)) : bool :=
  match sample_2.all_meet_min_distance vs N m with
  | Ok b => b
  | Raise _ => false
  end.

(** The number of arrays of shape [(N, D)] that pass. *)
Definition success_count (N D m : Z) : nat :=
  count_if (passes N m) (bipolar_arrays (Z.to_nat N) (Z.to_nat D)).

(** The values of a list, without repetition, in increasing order. *)
Definition distinct_sorted_Z (l : list Z) : list Z :=
  merge_sort Z.le (elements (list_to_set l : gset Z)).

Definition distinct_sorted_Qc (l : list Q) : list Qc :=
  merge_sort Qcle (elements (list_to_set (Q2Qc <$> l) : gset Qc)).

Section Layout.
Variable format_3f : Qc -> string.
Variable format_float_8 : Q -> string.

(** The line of the table for [(N, m)]: the label, then one cell for each
    target, holding the dimension inverse mode returns. *)
Definition row_text (N m : Z) (targets : list Qc) : string :=
  foldl (fun row (k : Qc) =>
           row +:+ " " +:+ format_cell format_float_8 (dim_of N m k) +:+ " |")
    (centre (pretty m) 11 +:+ " |") targets.

(** The lines printed for one value of [N]. *)
Definition block_text (N : Z) (ms : list Z) (targets : list Qc) : list string :=
  ["N = " +:+ pretty N; str_repeat "-" 80; header_line format_3f targets;
   str_repeat "-" (String.length (header_line format_3f targets))]
  ++ map (fun m => row_text N m targets) ms
  ++ [str_repeat "-" 80; ""].

(** The whole table of a sweep. *)
Definition table_text (Ns ms : list Z) (probs : list Q) : list string :=
  [String "010"%char "Required dimensions (D) for different parameters:";
   str_repeat "-" 80]
  ++ concat (map (fun N => block_text N (distinct_sorted_Z ms)
                             (distinct_sorted_Qc probs))
               (distinct_sorted_Z Ns)).
End Layout.

(** * Properties *)

(** ** Binomial coefficients and their partial sums *)
















(** ** The distance tail *)

Lemma tail_loop_some d ks p :
  tail_loop (Some d) ks p = Ok (fold_left (tail_step d) ks p).
Proof. revert p. induction ks as [|k ks IH]; intros p; simpl; auto. Qed.

Lemma tail_int D m :
  probability_distance_less_than (Some D) m = Ok (tail_value D m).
Proof. apply tail_loop_some. Qed.


Lemma range_length n : length (range n) = Z.to_nat n.
Proof.
  unfold range, range2. rewrite length_map, length_seq. f_equal. lia.
Qed.



Lemma range_of_nat n :
  range (Z.of_nat n) = map Z.of_nat (seq 0 n).
Proof.
  unfold range, range2. replace (Z.to_nat (Z.of_nat n - 0)) with n by lia.
  reflexivity.
Qed.




Lemma tail_value_0 D : tail_value D 0 = 0%Q.
Proof. reflexivity. Qed.











(** ** Forward mode and the search loop *)

Lemma prob_at_eq N m D :
  prob_at N m D = Ok (1 - (inject_Z (N * (N - 1)) / 2) * tail_value D m)%Q.
Proof. unfold prob_at. rewrite tail_int. reflexivity. Qed.

Lemma loop_body_eq N m tau low high :
  loop_body N m tau low high =
  Ok (if good N m tau ((low + high) / 2)
      then (low, (low + high) / 2 - 1)
      else ((low + high) / 2 + 1, high)).
Proof. unfold loop_body. rewrite prob_at_eq. reflexivity. Qed.

Lemma binary_search_step N m tau low high :
  binary_search N m tau low high =
  if low <=? high
  then if good N m tau ((low + high) / 2)
       then binary_search N m tau low ((low + high) / 2 - 1)
       else binary_search N m tau ((low + high) / 2 + 1) high
  else Ok low.
Proof.
  rewrite binary_search_equation_1.
  assert (Hbody : forall r (e : loop_body N m tau low high = r) g,
             binary_search_unfold_clause_1_clause_1 N m tau low high
               (exist _ r e) g =
             match r with
             | Ok (low', high') => binary_search N m tau low' high'
             | Raise e => Raise e
             end).
  { intros [[low' high']|e] eq g; reflexivity. }
  assert (Hguard : forall b (e : (low <=? high) = b),
             binary_search_unfold_clause_1 N m tau low high (exist _ b e) =
             if b
             then match loop_body N m tau low high with
                  | Ok (low', high') => binary_search N m tau low' high'
                  | Raise e => Raise e
                  end
             else Ok low).
  { intros [|] e; simpl; [|reflexivity]. unfold inspect. apply Hbody. }
  unfold inspect. rewrite Hguard, loop_body_eq. clear Hguard Hbody.
  destruct (low <=? high); [|reflexivity].
  destruct (good N m tau ((low + high) / 2)); reflexivity.
Qed.


Lemma required_eq N D m tau :
  probability_all_vectors_min_distance N D m (Some tau) =
  d ← binary_search N m tau m 1000; mret (Dim d).
Proof. reflexivity. Qed.













(** What the loop establishes, with no assumption on the test: the value
    returned is preceded by a failed test and, below the ceiling, passes. *)
Lemma binary_search_inv N m tau lo hi :
  forall low high,
    lo <= low -> low <= high + 1 -> high <= hi ->
    (low = lo \/ good N m tau (low - 1) = false) ->
    (high = hi \/ good N m tau (high + 1) = true) ->
    exists d, binary_search N m tau low high = Ok d /\
              low <= d <= high + 1 /\
              (d = lo \/ good N m tau (d - 1) = false) /\
              (d = hi + 1 \/ good N m tau d = true).
Proof.
  intros low high.
  remember (Z.to_nat (high - low + 1)) as n eqn:Hn.
  revert low high Hn. induction n as [n IH] using lt_wf_ind.
  intros low high Hn Hlo Hle Hhi Plow Phigh.
  rewrite binary_search_step.
  destruct (Z.leb_spec low high) as [Hg|Hg].
  - assert (low <= (low + high) / 2) by (apply Z.div_le_lower_bound; lia).
    assert ((low + high) / 2 <= high) by (apply Z.div_le_upper_bound; lia).
    set (mid := (low + high) / 2) in *.
    destruct (good N m tau mid) eqn:Hmid.
    + destruct (IH (Z.to_nat (mid - 1 - low + 1)) ltac:(lia) low (mid - 1))
        as (d & Hd & Hr & Hl & Hh); try lia; try assumption.
      { right. replace (mid - 1 + 1) with mid by lia. exact Hmid. }
      exists d. repeat split; try assumption; lia.
    + destruct (IH (Z.to_nat (high - (mid + 1) + 1)) ltac:(lia) (mid + 1) high)
        as (d & Hd & Hr & Hl & Hh); try lia; try assumption.
      { right. replace (mid + 1 - 1) with mid by lia. exact Hmid. }
      exists d. repeat split; try assumption; lia.
  - exists low. split; [reflexivity|]. split; [lia|]. split; [exact Plow|].
    destruct Phigh as [->|Hh]; [left; lia|]. right.
    replace low with (high + 1) by lia. exact Hh.
Qed.

Lemma binary_search_empty N m tau low high :
  high < low -> binary_search N m tau low high = Ok low.
Proof.
  intros H. rewrite binary_search_step.
  destruct (Z.leb_spec low high); [lia|reflexivity].
Qed.

(** The search, as used by inverse mode on [[m, 1000]]. *)
Lemma search_result N m tau :
  exists d, binary_search N m tau m 1000 = Ok d /\
            (m <= 1001 -> m <= d <= 1001) /\ (1001 < m -> d = m) /\
            (m < d -> good N m tau (d - 1) = false) /\
            (d <= 1000 -> good N m tau d = true).
Proof.
  destruct (Z.le_gt_cases m 1001) as [Hm|Hm].
  - destruct (binary_search_inv N m tau m 1000 m 1000)
      as (d & Hd & Hr & Hl & Hh); try lia; auto.
    exists d. split; [exact Hd|]. split; [lia|]. split; [lia|]. split.
    + intros ?. destruct Hl; [lia|assumption].
    + intros ?. destruct Hh; [lia|assumption].
  - exists m. rewrite binary_search_empty by lia.
    split; [reflexivity|]. split; [lia|]. split; [reflexivity|]. split; lia.
Qed.



Lemma while_run_det N m tau n st d :
  while_run N m tau n st d ->
  forall n' d', while_run N m tau n' st d' -> n = n' /\ d = d'.
Proof.
  induction 1 as [low high Hlt|n low high st d Hle Hb Hrun IH];
    intros n' d' Hrun'; inversion Hrun'; subst; try lia.
  match goal with
  | H1 : loop_body _ _ _ _ _ = Ok ?a, H2 : loop_body _ _ _ _ _ = Ok ?b |- _ =>
      rewrite H1 in H2; injection H2 as <-
  end.
  destruct (IH _ _ ltac:(eassumption)) as [-> ->]. auto.
Qed.

(** ** Forward mode against its closed form *)








(** ** Inverse mode *)













(** ** The Monte Carlo success tests *)

Lemma elem_of_range2 a b j : j ∈ range2 a b <-> a <= j < b.
Proof.
  unfold range2. rewrite list_elem_of_fmap. split.
  - intros (k & -> & Hk). apply elem_of_seq in Hk. lia.
  - intros Hj. exists (Z.to_nat (j - a)). split; [lia|].
    apply elem_of_seq. lia.
Qed.

Lemma elem_of_range n j : j ∈ range n <-> 0 <= j < n.
Proof. apply elem_of_range2. Qed.

Lemma getitem_in_range {A} (l : list A) i :
  0 <= i < Z.of_nat (length l) ->
  exists x, getitem l i = Ok x /\ l !! Z.to_nat i = Some x.
Proof.
  intros Hi. unfold getitem.
  destruct (Z.ltb_spec i 0) as [?|_]; [lia|].
  destruct (Z.ltb_spec i 0) as [?|_]; [lia|].
  destruct (lookup_lt_is_Some_2 l (Z.to_nat i)) as [x Hx]; [lia|].
  rewrite Hx. eauto.
Qed.

Lemma hamming_nonneg v w : 0 <= sample_2.hamming_distance v w.
Proof.
  unfold sample_2.hamming_distance. revert w.
  induction v as [|a v IH]; intros [|b w]; simpl; try lia.
  specialize (IH w). destruct (a =? b); lia.
Qed.

Lemma hamming_refl v : sample_2.hamming_distance v v = 0.
Proof.
  unfold sample_2.hamming_distance.
  induction v as [|a v IH]; simpl; [reflexivity|].
  rewrite Z.eqb_refl, IH. reflexivity.
Qed.

Lemma hamming_zero v w :
  length v = length w -> sample_2.hamming_distance v w = 0 <-> v = w.
Proof.
  intros Hlen. split; [|intros ->; apply hamming_refl].
  revert w Hlen. induction v as [|a v IH]; intros [|b w] Hlen;
    simpl in *; try discriminate; [reflexivity|].
  pose proof (hamming_nonneg v w) as Hnn.
  unfold sample_2.hamming_distance in *. simpl.
  destruct (Z.eqb_spec a b) as [->|Hab]; [|lia].
  intros H. f_equal. apply IH; lia.
Qed.

(** The inner loop: it leaves with [True] exactly when every remaining [j]
    is far enough from row [i]. *)
Lemma inner_loop_spec vectors N m i js :
  Z.of_nat (length vectors) = N ->
  0 <= i < N -> Forall (fun j => 0 <= j < N) js ->
  exists b, sample_2.inner_loop vectors i js m = Ok b /\
            (b = true <-> forall j, j ∈ js -> pair_ok vectors m i j).
Proof.
  intros Hlen Hi. induction 1 as [|j js Hj Hjs IH]; simpl.
  - exists true. split; [reflexivity|]. split; [|reflexivity].
    intros _ j Hin. inversion Hin.
  - destruct (getitem_in_range vectors i ltac:(lia)) as (v_i & -> & Hvi).
    destruct (getitem_in_range vectors j ltac:(lia)) as (v_j & -> & Hvj).
    simpl. destruct (Z.ltb_spec (sample_2.hamming_distance v_i v_j) m) as [Hd|Hd].
    + exists false. split; [reflexivity|]. split; [discriminate|].
      intros Hall. destruct (Hall j) as (a & b & Ha & Hb & Hab);
        [apply list_elem_of_here|].
      rewrite Hvi in Ha. rewrite Hvj in Hb.
      injection Ha as <-. injection Hb as <-. lia.
    + destruct IH as (b & -> & Hb). exists b. split; [reflexivity|].
      rewrite Hb. split.
      * intros Hall j' Hin. apply elem_of_cons in Hin as [->|Hin]; [|auto].
        exists v_i, v_j. auto.
      * intros Hall j' Hin. apply Hall, list_elem_of_further, Hin.
Qed.

(** The outer loop, likewise, over the remaining values of [i]. *)
Lemma outer_loop_spec vectors N m idx :
  Z.of_nat (length vectors) = N ->
  Forall (fun i => 0 <= i < N) idx ->
  exists b, sample_2.outer_loop vectors N idx m = Ok b /\
            (b = true <->
             forall i, i ∈ idx -> forall j, i < j < N -> pair_ok vectors m i j).
Proof.
  intros Hlen. induction 1 as [|i idx Hi Hidx IH]; simpl.
  - exists true. split; [reflexivity|]. split; [|reflexivity].
    intros _ i Hin. inversion Hin.
  - destruct (inner_loop_spec vectors N m i (range2 (i + 1) N) Hlen Hi)
      as (b & -> & Hb).
    { apply Forall_forall. intros j Hj. apply elem_of_range2 in Hj. lia. }
    simpl. destruct b; simpl.
    + destruct IH as (b & -> & Hb'). exists b. split; [reflexivity|].
      rewrite Hb'. split.
      * intros Hall i' Hin j Hj.
        apply elem_of_cons in Hin as [->|Hin]; [|auto].
        apply Hb; [reflexivity|]. apply elem_of_range2. lia.
      * intros Hall i' Hin. apply Hall, list_elem_of_further, Hin.
    + exists false. split; [reflexivity|]. split; [discriminate|].
      intros Hall. apply Hb. intros j Hj. apply elem_of_range2 in Hj.
      apply Hall; [apply list_elem_of_here|lia].
Qed.

(** The pairwise test of one trial on an array with [N] rows. *)
Lemma all_meet_min_distance_spec vectors N m :
  Z.of_nat (length vectors) = N ->
  exists b, sample_2.all_meet_min_distance vectors N m = Ok b /\
            (b = true <->
             forall i j, 0 <= i -> i < j -> j < N -> pair_ok vectors m i j).
Proof.
  intros Hlen.
  destruct (outer_loop_spec vectors N m (range N) Hlen) as (b & Hb & Hiff).
  { apply Forall_forall. intros i Hi. apply elem_of_range in Hi. lia. }
  exists b. split; [exact Hb|]. rewrite Hiff. split.
  - intros Hall i j H0 Hij HjN. apply Hall; [apply elem_of_range|]; lia.
  - intros Hall i Hi j Hj. apply elem_of_range in Hi. apply Hall; lia.
Qed.

Lemma list_to_set_cons_in (x : list Z) (l : list (list Z)) :
  x ∈ l -> (list_to_set (x :: l) : gset (list Z)) = list_to_set l.
Proof.
  intros Hin. rewrite list_to_set_cons. apply set_eq. intros y.
  rewrite elem_of_union, elem_of_singleton, !elem_of_list_to_set.
  split; [|auto]. intros [->|?]; assumption.
Qed.

Lemma size_list_to_set_cons_notin (x : list Z) (l : list (list Z)) :
  x ∉ l ->
  size (list_to_set (x :: l) : gset (list Z)) =
  S (size (list_to_set l : gset (list Z))).
Proof.
  intros Hnin. rewrite list_to_set_cons, size_union, size_singleton;
    [reflexivity|].
  apply disjoint_singleton_l. rewrite elem_of_list_to_set. exact Hnin.
Qed.

Lemma size_list_to_set_le (l : list (list Z)) :
  (size (list_to_set l : gset (list Z)) <= length l)%nat.
Proof.
  induction l as [|x l IH].
  - rewrite list_to_set_nil, size_empty. simpl. lia.
  - destruct (decide (x ∈ l)) as [Hin|Hnin].
    + rewrite list_to_set_cons_in by assumption. simpl. lia.
    + rewrite size_list_to_set_cons_notin by assumption. simpl. lia.
Qed.

Lemma size_list_to_set_NoDup (l : list (list Z)) :
  size (list_to_set l : gset (list Z)) = length l <-> NoDup l.
Proof.
  split; [|apply size_list_to_set].
  induction l as [|x l IH]; [constructor|].
  pose proof (size_list_to_set_le l) as Hle.
  destruct (decide (x ∈ l)) as [Hin|Hnin].
  - rewrite list_to_set_cons_in by assumption. simpl. lia.
  - rewrite size_list_to_set_cons_notin by assumption. simpl.
    intros Hs. constructor; [exact Hnin|]. apply IH. lia.
Qed.

Lemma all_distinct_NoDup vectors N :
  Z.of_nat (length vectors) = N ->
  sample.all_distinct vectors N = true <-> NoDup vectors.
Proof.
  intros Hlen. unfold sample.all_distinct.
  rewrite Z.eqb_eq, <- Hlen, Nat2Z.inj_iff. apply size_list_to_set_NoDup.
Qed.

Lemma pairs_distinct_NoDup vectors N D :
  has_shape vectors N D ->
  (forall i j, 0 <= i -> i < j -> j < N -> pair_ok vectors 1 i j) <->
  NoDup vectors.
Proof.
  intros [Hlen Hrows]. rewrite NoDup_alt. split.
  - intros Hall i j x Hi Hj.
    assert (Hne : forall a b, (a < b)%nat -> vectors !! a = Some x ->
                              vectors !! b = Some x -> False).
    { intros a b Hab Ha Hb.
      pose proof (lookup_lt_Some _ _ _ Hb) as Hlt.
      destruct (Hall (Z.of_nat a) (Z.of_nat b)) as (va & vb & Hva & Hvb & Hd);
        try lia.
      rewrite Nat2Z.id in Hva, Hvb. rewrite Ha in Hva. rewrite Hb in Hvb.
      injection Hva as <-. injection Hvb as <-.
      assert (sample_2.hamming_distance x x = 0) by (apply hamming_zero; auto).
      lia. }
    destruct (Nat.lt_trichotomy i j) as [Hlt|[Heq|Hgt]]; [|exact Heq|].
    + destruct (Hne i j Hlt Hi Hj).
    + destruct (Hne j i Hgt Hj Hi).
  - intros Hnd i j H0 Hij HjN.
    destruct (lookup_lt_is_Some_2 vectors (Z.to_nat i)) as [vi Hvi]; [lia|].
    destruct (lookup_lt_is_Some_2 vectors (Z.to_nat j)) as [vj Hvj]; [lia|].
    exists vi, vj. split; [exact Hvi|]. split; [exact Hvj|].
    pose proof (hamming_nonneg vi vj) as Hnn.
    destruct (Z.eq_dec (sample_2.hamming_distance vi vj) 0) as [Hz|Hnz]; [|lia].
    apply hamming_zero in Hz.
    + subst vj. specialize (Hnd _ _ _ Hvi Hvj). lia.
    + rewrite Forall_forall in Hrows.
      pose proof (Hrows vi (list_elem_of_lookup_2 _ _ _ Hvi)).
      pose proof (Hrows vj (list_elem_of_lookup_2 _ _ _ Hvj)). lia.
Qed.

(** C6.  On a fixed array of N vectors of D coordinates, the deduplication
    test (the set of rows has N elements) succeeds exactly when the pairwise
    test with minDistance = 1 succeeds, that is when every pair i < j is at
    Hamming distance at least 1. *)
Theorem C6_dedup_equals_pairwise vectors N D :
  has_shape vectors N D ->
  exists b,
    sample_2.all_meet_min_distance vectors N 1 = Ok b /\
    (sample.all_distinct vectors N = true <-> b = true) /\
    (b = true <->
     forall i j, 0 <= i -> i < j -> j < N -> pair_ok vectors 1 i j).
Proof.
  intros Hshape. pose proof Hshape as [Hlen _].
  destruct (all_meet_min_distance_spec vectors N 1 Hlen) as (b & Hb & Hiff).
  exists b. split; [exact Hb|]. split; [|exact Hiff].
  rewrite Hiff, (pairs_distinct_NoDup vectors N D Hshape).
  apply all_distinct_NoDup, Hlen.
Qed.

Lemma C6_witness :
  has_shape [[1; -1]; [1; 1]; [1; -1]] 3 2 /\
  exists b,
    sample_2.all_meet_min_distance [[1; -1]; [1; 1]; [1; -1]] 3 1 = Ok b /\
    (sample.all_distinct [[1; -1]; [1; 1]; [1; -1]] 3 = true <-> b = true) /\
    (b = true <->
     forall i j, 0 <= i -> i < j -> j < 3 ->
                 pair_ok [[1; -1]; [1; 1]; [1; -1]] 1 i j).
Proof.
  assert (Hs : has_shape [[1; -1]; [1; 1]; [1; -1]] 3 2).
  { split; [reflexivity|]. repeat constructor. }
  split; [exact Hs|].
  apply (C6_dedup_equals_pairwise [[1; -1]; [1; 1]; [1; -1]] 3 2 Hs).
Defined.

(** ** The sweep *)

Lemma required_total N m tau :
  requiredDimension N m tau = Ok (dim_of N m tau).
Proof.
  unfold dim_of. destruct (search_result N m tau) as (d & Hd & _).
  unfold requiredDimension. rewrite required_eq, Hd. reflexivity.
Qed.

Lemma good_Qeq N m tau tau' D :
  (tau == tau')%Q -> good N m tau D = good N m tau' D.
Proof.
  intros Heq. unfold good.
  destruct (Qle_bool tau' _) eqn:E.
  - apply Qle_bool_iff. apply Qle_bool_iff in E. rewrite Heq. exact E.
  - apply not_true_is_false. intros H. apply Qle_bool_iff in H.
    rewrite Heq in H. apply Qle_bool_iff in H. congruence.
Qed.

Lemma binary_search_Qeq N m tau tau' :
  (tau == tau')%Q ->
  forall low high,
    binary_search N m tau low high = binary_search N m tau' low high.
Proof.
  intros Heq low high.
  remember (Z.to_nat (high - low + 1)) as n eqn:Hn.
  revert low high Hn. induction n as [n IH] using lt_wf_ind.
  intros low high Hn.
  rewrite (binary_search_step N m tau), (binary_search_step N m tau').
  destruct (Z.leb_spec low high) as [Hg|Hg]; [|reflexivity].
  assert (low <= (low + high) / 2) by (apply Z.div_le_lower_bound; lia).
  assert ((low + high) / 2 <= high) by (apply Z.div_le_upper_bound; lia).
  rewrite (good_Qeq N m tau tau' _ Heq).
  destruct (good N m tau' ((low + high) / 2)).
  - apply (IH (Z.to_nat ((low + high) / 2 - 1 - low + 1))); lia.
  - apply (IH (Z.to_nat (high - ((low + high) / 2 + 1) + 1))); lia.
Qed.

(** The same target, written as two fractions, asks for the same dimension. *)
Lemma dim_of_key N m p p' : Q2Qc p = Q2Qc p' -> dim_of N m p = dim_of N m p'.
Proof.
  intros Hk. apply Q2Qc_eq_iff in Hk. unfold dim_of, requiredDimension.
  rewrite !required_eq, (binary_search_Qeq N m p p' Hk). reflexivity.
Qed.

(** Lookups in a dict filled by a loop of insertions whose value is a
  function of the key. *)
Section FoldInsert.
Context {A K V : Type} `{Countable K}.
Variables (key : A -> K) (val : A -> V).

Lemma fill_lookup_in init xs x :
  (forall x y, key x = key y -> val x = val y) ->
  x ∈ xs -> fill key val init xs !! key x = Some (val x).
Proof.
  intros val_key.
  induction xs as [|a xs IH] using rev_ind; intros Hin; [inversion Hin|].
  unfold fill in *. rewrite foldl_snoc.
  destruct (decide (key a = key x)) as [Heq|Hne].
  - rewrite Heq, lookup_insert_eq. f_equal. apply val_key, Heq.
  - rewrite lookup_insert_ne by assumption. apply IH.
    apply elem_of_app in Hin as [Hin|Hin]; [assumption|].
    apply list_elem_of_singleton in Hin. congruence.
Qed.

Lemma fill_lookup_out init xs k :
  (forall x, x ∈ xs -> key x <> k) -> fill key val init xs !! k = init !! k.
Proof.
  induction xs as [|a xs IH] using rev_ind; intros Hout; [reflexivity|].
  unfold fill in *. rewrite foldl_snoc, lookup_insert_ne.
  - apply IH. intros x Hx. apply Hout, elem_of_app. auto.
  - apply Hout, elem_of_app. right. apply list_elem_of_here.
Qed.

Lemma fill_lookup_inv init xs k v :
  fill key val init xs !! k = Some v ->
  (exists x, x ∈ xs /\ key x = k /\ val x = v) \/ init !! k = Some v.
Proof.
  induction xs as [|a xs IH] using rev_ind; intros Hl; [auto|].
  unfold fill in *. rewrite foldl_snoc in Hl.
  destruct (decide (key a = k)) as [Heq|Hne].
  - subst k. rewrite lookup_insert_eq in Hl. injection Hl as <-.
    left. exists a. split; [|auto]. apply elem_of_app. right.
    apply list_elem_of_here.
  - rewrite lookup_insert_ne in Hl by assumption.
    destruct (IH Hl) as [(x & Hx & Hk & Hv)|Hi]; [|auto].
    left. exists x. split; [|auto]. apply elem_of_app. auto.
Qed.
End FoldInsert.

Lemma sweep_state_eta st :
  st = {| results := results st; calls := calls st |}.
Proof. destruct st. reflexivity. Qed.

Lemma prob_loop_cons N m p probs st :
  prob_loop N m (p :: probs) st =
  D ← requiredDimension N m p;
  results_N ← dict_get (results st) N;
  cell ← dict_get results_N m;
  prob_loop N m probs
    {| results := <[N := <[m := <[Q2Qc p := D]> cell]> results_N]> (results st);
       calls := calls st ++ [(N, m, p)] |}.
Proof. reflexivity. Qed.

Lemma dict_get_some `{Countable K} {V} (d : gmap K V) k v :
  d !! k = Some v -> dict_get d k = Ok v.
Proof. intros Hk. unfold dict_get. rewrite Hk. reflexivity. Qed.

Lemma bind_ok {A B} (a : A) (f : A -> result B) : Ok a ≫= f = f a.
Proof. reflexivity. Qed.

Lemma prob_loop_spec N m probs :
  forall st row cell,
    results st !! N = Some row -> row !! m = Some cell ->
    prob_loop N m probs st =
    Ok {| results := <[N := <[m := cell_of N m probs cell]> row]> (results st);
          calls := calls st ++ map (fun p => (N, m, p)) probs |}.
Proof.
  induction probs as [|p probs IH]; intros st row cell Hrow Hcell.
  - simpl. rewrite app_nil_r, (insert_id row), (insert_id (results st))
      by assumption.
    f_equal. apply sweep_state_eta.
  - rewrite prob_loop_cons, required_total, bind_ok.
    rewrite (dict_get_some _ _ _ Hrow), bind_ok.
    rewrite (dict_get_some _ _ _ Hcell), bind_ok.
    rewrite (IH _ (<[m := <[Q2Qc p := dim_of N m p]> cell]> row)
               (<[Q2Qc p := dim_of N m p]> cell));
      cbn [results calls]; [|apply lookup_insert_eq..].
    rewrite !insert_insert_eq, <- app_assoc. reflexivity.
Qed.

Lemma min_dist_loop_spec N probs ms :
  forall st row,
    results st !! N = Some row ->
    min_dist_loop N ms probs st =
    Ok {| results := <[N := row_of N ms probs row]> (results st);
          calls := calls st ++
                   (m ← ms; p ← probs; [(N, m, p)]) |}.
Proof.
  induction ms as [|m ms IH]; intros st row Hrow.
  - simpl. rewrite app_nil_r, (insert_id (results st)) by assumption.
    f_equal. apply sweep_state_eta.
  - cbn [min_dist_loop]. rewrite (dict_get_some _ _ _ Hrow), bind_ok.
    rewrite (prob_loop_spec N m probs _ (<[m := ∅]> row) ∅);
      cbn [results calls]; [|apply lookup_insert_eq..].
    rewrite bind_ok.
    rewrite (IH _ (<[m := cell_of N m probs ∅]> (<[m := ∅]> row)));
      cbn [results calls]; [|apply lookup_insert_eq].
    rewrite !insert_insert_eq, <- app_assoc.
    replace (map (fun p => (N, m, p)) probs)
      with (p ← probs; [(N, m, p)]).
    + reflexivity.
    + clear. induction probs as [|p probs IHp]; [reflexivity|].
      cbn. congruence.
Qed.

Lemma N_loop_spec ms probs Ns :
  forall st,
    N_loop Ns ms probs st =
    Ok {| results := table_of Ns ms probs (results st);
          calls := calls st ++ combinations Ns ms probs |}.
Proof.
  induction Ns as [|N Ns IH]; intros st.
  - simpl. rewrite app_nil_r. f_equal. apply sweep_state_eta.
  - cbn [N_loop].
    rewrite (min_dist_loop_spec N probs ms _ ∅); cbn [results calls];
      [|apply lookup_insert_eq].
    rewrite bind_ok, IH. cbn [results calls].
    rewrite insert_insert_eq, <- app_assoc. reflexivity.
Qed.

Lemma cell_of_fill N m probs cell :
  cell_of N m probs cell = fill Q2Qc (dim_of N m) cell probs.
Proof. reflexivity. Qed.

Lemma row_of_fill N ms probs row :
  row_of N ms probs row = fill id (fun m => cell_of N m probs ∅) row ms.
Proof. reflexivity. Qed.

Lemma table_of_fill Ns ms probs res :
  table_of Ns ms probs res = fill id (fun N => row_of N ms probs ∅) res Ns.
Proof. reflexivity. Qed.




(** ** Parameter validation *)







(** ** The tail and forward mode, further *)













(** ** Inverse mode, further *)











(** ** The trial tests and the two simulations *)

Lemma hamming_cons a b v w :
  sample_2.hamming_distance (a :: v) (b :: w) =
  (if a =? b then 0 else 1) + sample_2.hamming_distance v w.
Proof. reflexivity. Qed.

Lemma hamming_sym v w :
  sample_2.hamming_distance v w = sample_2.hamming_distance w v.
Proof.
  revert w. induction v as [|a v IH]; intros [|b w]; try reflexivity.
  rewrite !hamming_cons, IH, (Z.eqb_sym a b). reflexivity.
Qed.

Lemma hamming_le_length v w :
  sample_2.hamming_distance v w <= Z.of_nat (length v).
Proof.
  revert w. induction v as [|a v IH]; intros [|b w];
    try (cbn; lia).
  rewrite hamming_cons. specialize (IH w). cbn [length].
  destruct (a =? b); lia.
Qed.

Lemma hamming_triangle v w u :
  length v = length w -> length w = length u ->
  sample_2.hamming_distance v u <=
  sample_2.hamming_distance v w + sample_2.hamming_distance w u.
Proof.
  revert w u. induction v as [|a v IH]; intros [|b w] [|c u] Hvw Hwu;
    simpl in Hvw, Hwu; try lia; [cbn; lia|].
  rewrite !hamming_cons. specialize (IH w u ltac:(lia) ltac:(lia)).
  destruct (Z.eqb_spec a c), (Z.eqb_spec a b), (Z.eqb_spec b c); lia.
Qed.

(** X8.  [hamming_distance] is a metric on rows of one length: it is
    symmetric, lies between 0 and the length, is 0 exactly for equal rows,
    and satisfies the triangle inequality. *)
Theorem X8_hamming_is_a_metric v w u :
  length v = length w -> length w = length u ->
  sample_2.hamming_distance v w = sample_2.hamming_distance w v /\
  0 <= sample_2.hamming_distance v w <= Z.of_nat (length v) /\
  (sample_2.hamming_distance v w = 0 <-> v = w) /\
  sample_2.hamming_distance v u <=
  sample_2.hamming_distance v w + sample_2.hamming_distance w u.
Proof.
  intros Hvw Hwu. split; [apply hamming_sym|].
  split; [split; [apply hamming_nonneg|apply hamming_le_length]|].
  split; [apply hamming_zero, Hvw|apply hamming_triangle; assumption].
Qed.

Lemma X8_witness :
  length [1; -1; 1] = length [1; 1; -1] /\
  length [1; 1; -1] = length [-1; 1; -1] /\
  sample_2.hamming_distance [1; -1; 1] [1; 1; -1] =
  sample_2.hamming_distance [1; 1; -1] [1; -1; 1] /\
  0 <= sample_2.hamming_distance [1; -1; 1] [1; 1; -1] <=
  Z.of_nat (length [1; -1; 1]) /\
  (sample_2.hamming_distance [1; -1; 1] [1; 1; -1] = 0 <->
   [1; -1; 1] = [1; 1; -1]) /\
  sample_2.hamming_distance [1; -1; 1] [-1; 1; -1] <=
  sample_2.hamming_distance [1; -1; 1] [1; 1; -1] +
  sample_2.hamming_distance [1; 1; -1] [-1; 1; -1].
Proof.
  split; [reflexivity|]. split; [reflexivity|].
  apply (X8_hamming_is_a_metric [1; -1; 1] [1; 1; -1] [-1; 1; -1]);
    reflexivity.
Defined.

(** X9.  The early-exit loops of the general test decide the exhaustive
    condition: on an array with N rows the test raises nothing and succeeds
    exactly when every pair of rows i < j is at Hamming distance at least
    minDistance.  With N <= 1 there is no pair and it succeeds. *)
Theorem X9_pairwise_test_is_exhaustive vectors N m :
  Z.of_nat (length vectors) = N ->
  exists b,
    sample_2.all_meet_min_distance vectors N m = Ok b /\
    (b = true <->
     forall i j, 0 <= i -> i < j -> j < N -> pair_ok vectors m i j) /\
    (N <= 1 -> b = true).
Proof.
  intros Hlen.
  destruct (all_meet_min_distance_spec vectors N m Hlen) as (b & Hb & Hiff).
  exists b. split; [exact Hb|]. split; [exact Hiff|].
  intros HN. apply Hiff. intros i j ? ? ?. lia.
Qed.

Lemma X9_witness :
  Z.of_nat (length [[1; 1; 1]; [1; -1; -1]; [-1; -1; 1]]) = 3 /\
  exists b,
    sample_2.all_meet_min_distance [[1; 1; 1]; [1; -1; -1]; [-1; -1; 1]] 3 2
    = Ok b /\
    (b = true <->
     forall i j, 0 <= i -> i < j -> j < 3 ->
                 pair_ok [[1; 1; 1]; [1; -1; -1]; [-1; -1; 1]] 2 i j) /\
    (3 <= 1 -> b = true).
Proof.
  split; [reflexivity|].
  apply (X9_pairwise_test_is_exhaustive
           [[1; 1; 1]; [1; -1; -1]; [-1; -1; 1]] 3 2).
  reflexivity.
Defined.

(** The two trial loops agree when every array drawn has its shape. *)
Lemma trials_loops_agree choice N D trials :
  forall c,
    (forall t vs, t ∈ trials -> choice t N D = Ok vs -> has_shape vs N D) ->
    sample.trials_loop choice trials N D c =
    sample_2.trials_loop choice trials N D 1 c.
Proof.
  induction trials as [|t trials IH]; intros c Hshape; [reflexivity|].
  cbn [sample.trials_loop sample_2.trials_loop].
  destruct (choice t N D) as [vs|e] eqn:Hvs; [|reflexivity].
  rewrite !bind_ok.
  pose proof (Hshape t vs (list_elem_of_here _ _) Hvs) as Hs.
  pose proof Hs as [Hlen _].
  destruct (all_meet_min_distance_spec vs N 1 Hlen) as (b & Hb & Hiff).
  rewrite Hb, bind_ok.
  assert (Hsame : sample.all_distinct vs N = b).
  { apply eq_true_iff_eq.
    rewrite Hiff, (pairs_distinct_NoDup vs N D Hs).
    apply all_distinct_NoDup, Hlen. }
  rewrite Hsame. apply IH.
  intros t' vs' Ht'. apply Hshape, list_elem_of_further, Ht'.
Qed.

(** X10.  On the same draws, the simulation of [sample.py] (hash-based
    distinctness) and the simulation of [sample_2.py] with min_distance = 1
    (pairwise distances) return the same result, exceptions included, as
    long as every array drawn has shape (N, D). *)
Theorem X10_simulations_agree choice N D num_trials :
  (forall t vs, (t < Z.to_nat num_trials)%nat ->
                choice t N D = Ok vs -> has_shape vs N D) ->
  sample.simulate_vector_distinctness choice N D num_trials =
  sample_2.simulate_vector_distinctness choice N D 1 num_trials.
Proof.
  intros Hshape.
  unfold sample.simulate_vector_distinctness,
    sample_2.simulate_vector_distinctness.
  rewrite (trials_loops_agree choice N D (seq 0 (Z.to_nat num_trials)) 0);
    [reflexivity|].
  intros t vs Ht. apply elem_of_seq in Ht. apply Hshape. lia.
Qed.

Lemma X10_witness :
  (forall t vs, (t < Z.to_nat 4)%nat ->
                (fun (t : nat) (_ _ : Z) =>
                   if Nat.even t then Ok [[1; 1]; [1; -1]]
                   else Ok [[1; 1]; [1; 1]]) t 2 2 = Ok vs ->
                has_shape vs 2 2) /\
  sample.simulate_vector_distinctness
    (fun (t : nat) (_ _ : Z) =>
       if Nat.even t then Ok [[1; 1]; [1; -1]] else Ok [[1; 1]; [1; 1]])
    2 2 4 =
  sample_2.simulate_vector_distinctness
    (fun (t : nat) (_ _ : Z) =>
       if Nat.even t then Ok [[1; 1]; [1; -1]] else Ok [[1; 1]; [1; 1]])
    2 2 1 4.
Proof.
  assert (Hs : forall (t : nat) vs, (t < Z.to_nat 4)%nat ->
             (fun (t : nat) (_ _ : Z) =>
                if Nat.even t then Ok [[1; 1]; [1; -1]]
                else Ok [[1; 1]; [1; 1]]) t 2 2 = Ok vs ->
             has_shape vs 2 2).
  { intros t vs _. cbv beta. destruct (Nat.even t); intros [= <-];
      (split; [reflexivity|repeat constructor]). }
  split; [exact Hs|].
  apply (X10_simulations_agree
           (fun (t : nat) (_ _ : Z) =>
              if Nat.even t then Ok [[1; 1]; [1; -1]]
              else Ok [[1; 1]; [1; 1]]) 2 2 4 Hs).
Defined.

(** ** Counting bipolar vectors *)




Lemma bipolar_vectors_length D : length (bipolar_vectors D) = (2 ^ D)%nat.
Proof.
  induction D as [|D IH]; [reflexivity|].
  cbn [bipolar_vectors]. rewrite length_app, !length_map, IH.
  rewrite Nat.pow_succ_r'. lia.
Qed.

Lemma bipolar_vectors_complete v :
  bipolar v -> v ∈ bipolar_vectors (length v).
Proof.
  induction 1 as [|a v Ha Hv IH]; [apply list_elem_of_here|].
  cbn [length bipolar_vectors]. apply elem_of_app.
  destruct Ha as [->| ->]; [left|right]; apply list_elem_of_fmap; eauto.
Qed.








(** X12.  Pigeonhole: an array of N bipolar vectors of D coordinates with
    N > 2^D has two equal rows, so both success tests fail on it. *)
Theorem X12_pigeonhole vectors N D :
  has_shape vectors N D -> Forall bipolar vectors -> 0 <= D -> 2 ^ D < N ->
  sample.all_distinct vectors N = false /\
  sample_2.all_meet_min_distance vectors N 1 = Ok false.
Proof.
  intros Hs Hb HD HN. pose proof Hs as [Hlen Hrows].
  assert (Hdup : ~ NoDup vectors).
  { intros Hnd.
    assert (Hsub : vectors ⊆+ bipolar_vectors (Z.to_nat D)).
    { apply NoDup_submseteq; [exact Hnd|]. intros v Hv.
      rewrite Forall_forall in Hb, Hrows.
      replace (Z.to_nat D) with (length v)
        by (specialize (Hrows v Hv); lia).
      apply bipolar_vectors_complete, Hb, Hv. }
    apply submseteq_length in Hsub. rewrite bipolar_vectors_length in Hsub.
    assert (Z.of_nat (2 ^ Z.to_nat D) = 2 ^ D).
    { rewrite Nat2Z.inj_pow, Z2Nat.id by lia. reflexivity. }
    lia. }
  assert (Hd : sample.all_distinct vectors N = false).
  { apply not_true_is_false. rewrite (all_distinct_NoDup vectors N Hlen).
    exact Hdup. }
  split; [exact Hd|].
  destruct (all_meet_min_distance_spec vectors N 1 Hlen) as (b & Hb' & Hiff).
  rewrite Hb'. f_equal. apply not_true_is_false.
  rewrite Hiff, (pairs_distinct_NoDup vectors N D Hs). exact Hdup.
Qed.

Lemma X12_witness :
  has_shape [[1]; [-1]; [1]] 3 1 /\ Forall bipolar [[1]; [-1]; [1]] /\
  0 <= 1 /\ 2 ^ 1 < 3 /\
  sample.all_distinct [[1]; [-1]; [1]] 3 = false /\
  sample_2.all_meet_min_distance [[1]; [-1]; [1]] 3 1 = Ok false.
Proof.
  assert (Hs : has_shape [[1]; [-1]; [1]] 3 1).
  { split; [reflexivity|repeat constructor]. }
  assert (Hb : Forall bipolar [[1]; [-1]; [1]]).
  { unfold bipolar.
    repeat match goal with
           | |- Forall _ _ => constructor
           | |- _ \/ _ => first [left; reflexivity|right; reflexivity]
           end. }
  split; [exact Hs|]. split; [exact Hb|]. split; [lia|]. split; [lia|].
  apply (X12_pigeonhole [[1]; [-1]; [1]] 3 1 Hs Hb); lia.
Defined.

Lemma trials_loop_constant choice N D m trials (b0 : bool) :
  forall c,
    (forall t, t ∈ trials ->
               exists vs, choice t N D = Ok vs /\
                          sample_2.all_meet_min_distance vs N m = Ok b0) ->
    sample_2.trials_loop choice trials N D m c =
    Ok (if b0 then c + Z.of_nat (length trials) else c).
Proof.
  induction trials as [|t trials IH]; intros c Hdraw.
  - cbn. destruct b0; f_equal; lia.
  - destruct (Hdraw t (list_elem_of_here _ _)) as (vs & Hvs & Hb).
    cbn [sample_2.trials_loop]. rewrite Hvs, bind_ok, Hb, bind_ok.
    rewrite IH by (intros t' Ht'; apply Hdraw, list_elem_of_further, Ht').
    cbn [length]. destruct b0; f_equal; lia.
Qed.

Lemma simulate_constant choice N D m num_trials (b0 : bool) :
  1 <= num_trials ->
  (forall t, (t < Z.to_nat num_trials)%nat ->
             exists vs, choice t N D = Ok vs /\
                        sample_2.all_meet_min_distance vs N m = Ok b0) ->
  exists q, sample_2.simulate_vector_distinctness choice N D m num_trials
            = Ok q /\ (q == if b0 then 1 else 0)%Q.
Proof.
  intros HT Hdraw. unfold sample_2.simulate_vector_distinctness.
  rewrite (trials_loop_constant choice N D m _ b0).
  2:{ intros t Ht. apply elem_of_seq in Ht. apply Hdraw. lia. }
  rewrite bind_ok, length_seq.
  destruct (Z.eqb_spec num_trials 0); [lia|].
  eexists. split; [reflexivity|].
  assert (~ (inject_Z num_trials == 0)%Q).
  { intros E. unfold Qeq in E. simpl in E. lia. }
  destruct b0.
  - rewrite Z.add_0_l, Z2Nat.id by lia. field. assumption.
  - change (inject_Z 0) with 0%Q. field. assumption.
Qed.

(** X13.  Degenerate thresholds of the simulation of [sample_2.py], with at
    least one trial and arrays of shape (N, D): with min_distance <= 0, or
    with at most one vector, every trial succeeds and the estimate is 1;
    with min_distance > D and at least two vectors no trial succeeds and the
    estimate is 0. *)
Theorem X13_simulation_degenerate_thresholds choice N D m num_trials :
  1 <= num_trials ->
  (forall t, (t < Z.to_nat num_trials)%nat ->
             exists vs, choice t N D = Ok vs /\ has_shape vs N D) ->
  (m <= 0 \/ N <= 1 ->
   exists q, monteCarloEstimate choice N D m num_trials = Ok q /\ (q == 1)%Q) /\
  (D < m -> 2 <= N ->
   exists q, monteCarloEstimate choice N D m num_trials = Ok q /\ (q == 0)%Q).
Proof.
  intros HT Hdraw. split.
  - intros Hcase. apply (simulate_constant choice N D m num_trials true HT).
    intros t Ht. destruct (Hdraw t Ht) as (vs & Hvs & Hlen & _).
    exists vs. split; [exact Hvs|].
    destruct (all_meet_min_distance_spec vs N m Hlen) as (b & Hb & Hiff).
    rewrite Hb. f_equal. apply Hiff. intros i j H0 Hij HjN.
    destruct Hcase as [Hm|HN]; [|lia].
    destruct (lookup_lt_is_Some_2 vs (Z.to_nat i)) as [vi Hvi]; [lia|].
    destruct (lookup_lt_is_Some_2 vs (Z.to_nat j)) as [vj Hvj]; [lia|].
    exists vi, vj. split; [exact Hvi|]. split; [exact Hvj|].
    pose proof (hamming_nonneg vi vj). lia.
  - intros Hm HN. apply (simulate_constant choice N D m num_trials false HT).
    intros t Ht. destruct (Hdraw t Ht) as (vs & Hvs & Hlen & Hrows).
    exists vs. split; [exact Hvs|].
    destruct (all_meet_min_distance_spec vs N m Hlen) as (b & Hb & Hiff).
    rewrite Hb. f_equal. apply not_true_is_false. rewrite Hiff. intros Hall.
    destruct (Hall 0 1) as (v0 & v1 & Hv0 & Hv1 & Hd); try lia.
    pose proof (hamming_le_length v0 v1).
    rewrite Forall_forall in Hrows.
    pose proof (Hrows v0 (list_elem_of_lookup_2 _ _ _ Hv0)). lia.
Qed.

Lemma X13_witness :
  1 <= 2 /\
  (forall t, (t < Z.to_nat 2)%nat ->
             exists vs, (fun _ _ _ => Ok [[1; 1]; [1; -1]]) t 2 2 = Ok vs /\
                        has_shape vs 2 2) /\
  (exists q, monteCarloEstimate (fun _ _ _ => Ok [[1; 1]; [1; -1]]) 2 2 0 2
             = Ok q /\ (q == 1)%Q) /\
  (exists q, monteCarloEstimate (fun _ _ _ => Ok [[1; 1]; [1; -1]]) 2 2 3 2
             = Ok q /\ (q == 0)%Q).
Proof.
  assert (Hdraw : forall t : nat, (t < Z.to_nat 2)%nat ->
            exists vs, (fun _ _ _ => Ok [[1; 1]; [1; -1]]) t 2 2 = Ok vs /\
                       has_shape vs 2 2).
  { intros t _. eexists. split; [reflexivity|].
    split; [reflexivity|repeat constructor]. }
  split; [lia|]. split; [exact Hdraw|]. split.
  - apply (proj1 (X13_simulation_degenerate_thresholds
                    (fun _ _ _ => Ok [[1; 1]; [1; -1]]) 2 2 0 2
                    ltac:(lia) Hdraw)).
    left. lia.
  - apply (proj2 (X13_simulation_degenerate_thresholds
                    (fun _ _ _ => Ok [[1; 1]; [1; -1]]) 2 2 3 2
                    ltac:(lia) Hdraw)); lia.
Defined.

(** ** The union bound, counted *)










Section UnionBound.
Variables (D : nat) (m : Z).

Let L := bipolar_vectors D.



End UnionBound.




(** ** The sweep and the simulation of sample.py, further *)

Lemma fill_lookup_none {A K V} `{Countable K} (key : A -> K) (val : A -> V)
    xs k :
  k ∉ key <$> xs -> fill key val ∅ xs !! k = None.
Proof.
  intros Hk. rewrite fill_lookup_out; [apply lookup_empty|].
  intros x Hx <-. apply Hk, list_elem_of_fmap. eauto.
Qed.

(** A dict filled from the empty dict depends only on the set of keys. *)
Lemma fill_same_keys {A K V} `{Countable K} (key : A -> K) (val val' : A -> V)
    xs xs' :
  (forall x y, key x = key y -> val x = val' y) ->
  (forall k, k ∈ key <$> xs <-> k ∈ key <$> xs') ->
  fill key val ∅ xs = fill key val' ∅ xs'.
Proof.
  intros Hval Hkeys. apply map_eq. intros k.
  assert (Hv : forall x y, key x = key y -> val x = val y).
  { intros x y Hxy. rewrite (Hval x y Hxy). symmetry. apply Hval. reflexivity. }
  assert (Hv' : forall x y, key x = key y -> val' x = val' y).
  { intros x y Hxy. rewrite <- (Hval x y Hxy). symmetry.
    rewrite <- (Hval x x eq_refl). reflexivity. }
  destruct (decide (k ∈ key <$> xs)) as [Hin|Hnin].
  - pose proof (proj1 (Hkeys k) Hin) as Hin'.
    apply list_elem_of_fmap in Hin as (x & -> & Hx).
    apply list_elem_of_fmap in Hin' as (y & Hxy & Hy).
    rewrite (fill_lookup_in key val ∅ xs x Hv Hx).
    rewrite Hxy, (fill_lookup_in key val' ∅ xs' y Hv' Hy).
    f_equal. apply Hval, Hxy.
  - rewrite (fill_lookup_none key val xs k Hnin).
    rewrite fill_lookup_none; [reflexivity|].
    intros Hin'. apply Hnin, Hkeys, Hin'.
Qed.

Lemma fmap_id_elem (l : list Z) k : k ∈ id <$> l <-> k ∈ l.
Proof. rewrite list_fmap_id. reflexivity. Qed.

(** X15.  The sweep depends only on the sets of values it is given: two
    calls whose N values, minimum distances and targets (as numbers) are the
    same up to order and repetition return the same nested dict. *)
Theorem X15_sweep_ignores_order_and_repetition Ns Ns' ms ms' probs probs' :
  (forall N, N ∈ Ns <-> N ∈ Ns') ->
  (forall m, m ∈ ms <-> m ∈ ms') ->
  (forall k, k ∈ Q2Qc <$> probs <-> k ∈ Q2Qc <$> probs') ->
  sweep Ns ms probs = sweep Ns' ms' probs'.
Proof.
  intros HN Hm Hp.
  unfold sweep, calculate_required_dimensions,
    calculate_required_dimensions_run.
  rewrite !N_loop_spec, !bind_ok. cbn [results]. f_equal.
  rewrite !table_of_fill.
  apply fill_same_keys; [|intros k; rewrite !fmap_id_elem; apply HN].
  intros N N' HNN. unfold id in HNN. subst N'. rewrite !row_of_fill.
  apply fill_same_keys; [|intros k; rewrite !fmap_id_elem; apply Hm].
  intros m m' Hmm. unfold id in Hmm. subst m'. rewrite !cell_of_fill.
  apply fill_same_keys; [|exact Hp].
  apply dim_of_key.
Qed.

Lemma X15_witness :
  (forall N, N ∈ [10; 20; 10] <-> N ∈ [20; 10]) /\
  (forall m, m ∈ [1; 2] <-> m ∈ [2; 1; 1]) /\
  (forall k, k ∈ Q2Qc <$> [1 # 2; 2 # 4] <-> k ∈ Q2Qc <$> [1 # 2]) /\
  sweep [10; 20; 10] [1; 2] [1 # 2; 2 # 4] = sweep [20; 10] [2; 1; 1] [1 # 2].
Proof.
  assert (HN : forall N, N ∈ [10; 20; 10] <-> N ∈ [20; 10]).
  { intros N. rewrite !elem_of_cons, !elem_of_nil. tauto. }
  assert (Hm : forall m, m ∈ [1; 2] <-> m ∈ [2; 1; 1]).
  { intros m. rewrite !elem_of_cons, !elem_of_nil. tauto. }
  assert (Hp : forall k, k ∈ Q2Qc <$> [1 # 2; 2 # 4]
                         <-> k ∈ Q2Qc <$> [1 # 2]).
  { intros k. cbn [fmap list_fmap].
    replace (Q2Qc (2 # 4)) with (Q2Qc (1 # 2))
      by (apply Q2Qc_eq_iff; reflexivity).
    rewrite !elem_of_cons, !elem_of_nil. tauto. }
  split; [exact HN|]. split; [exact Hm|]. split; [exact Hp|].
  apply (X15_sweep_ignores_order_and_repetition
           [10; 20; 10] [20; 10] [1; 2] [2; 1; 1] [1 # 2; 2 # 4] [1 # 2]
           HN Hm Hp).
Defined.

Lemma sample_trials_loop_ok choice N D trials :
  forall c,
    (forall t, t ∈ trials -> exists vs, choice t N D = Ok vs) ->
    exists c', sample.trials_loop choice trials N D c = Ok c' /\
               c <= c' <= c + Z.of_nat (length trials).
Proof.
  induction trials as [|t trials IH]; intros c Hdraw.
  - exists c. split; [reflexivity|]. simpl. lia.
  - destruct (Hdraw t (list_elem_of_here _ _)) as (vs & Hvs).
    destruct (IH (if sample.all_distinct vs N then c + 1 else c))
      as (c' & Hc' & Hr).
    { intros t' Ht'. apply Hdraw, list_elem_of_further, Ht'. }
    exists c'. split.
    + cbn [sample.trials_loop]. rewrite Hvs, bind_ok. exact Hc'.
    + cbn [length]. destruct (sample.all_distinct vs N); lia.
Qed.

Lemma sample_trials_loop_raise choice N D e :
  forall n (t0 : nat) c start,
    (t0 < n)%nat ->
    (forall t, (t < t0)%nat -> exists vs, choice (start + t)%nat N D = Ok vs) ->
    choice (start + t0)%nat N D = Raise e ->
    sample.trials_loop choice (seq start n) N D c = Raise e.
Proof.
  induction n as [|n IH]; intros t0 c start Ht0 Hbefore Hfail; [lia|].
  cbn [seq sample.trials_loop]. destruct t0 as [|t0].
  - rewrite Nat.add_0_r in Hfail. rewrite Hfail. reflexivity.
  - destruct (Hbefore 0%nat ltac:(lia)) as (vs & Hvs).
    rewrite Nat.add_0_r in Hvs. rewrite Hvs, bind_ok.
    apply (IH t0); [lia| |].
    + intros t Ht. specialize (Hbefore (S t) ltac:(lia)).
      replace (S start + t)%nat with (start + S t)%nat by lia. exact Hbefore.
    + replace (S start + t0)%nat with (start + S t0)%nat by lia. exact Hfail.
Qed.

(** X16.  The simulation of [sample.py]: with no trial it raises
    ZeroDivisionError; with at least one trial whose draws all succeed it
    returns a frequency in [0, 1]; and when a draw raises, the simulation
    raises the exception of the first failing draw. *)
Theorem X16_sample_simulation_outcomes choice N D num_trials :
  (num_trials = 0 ->
   sample.simulate_vector_distinctness choice N D num_trials =
   Raise ZeroDivisionError) /\
  (1 <= num_trials ->
   (forall t, (t < Z.to_nat num_trials)%nat ->
              exists vs, choice t N D = Ok vs) ->
   exists q, sample.simulate_vector_distinctness choice N D num_trials = Ok q
             /\ (0 <= q <= 1)%Q) /\
  (forall (t0 : nat) e,
     (t0 < Z.to_nat num_trials)%nat ->
     (forall t, (t < t0)%nat -> exists vs, choice t N D = Ok vs) ->
     choice t0 N D = Raise e ->
     sample.simulate_vector_distinctness choice N D num_trials = Raise e).
Proof.
  unfold sample.simulate_vector_distinctness. split; [|split].
  - intros ->. reflexivity.
  - intros HT Hdraw.
    destruct (sample_trials_loop_ok choice N D (seq 0 (Z.to_nat num_trials)) 0)
      as (c & Hc & Hr).
    { intros t Ht. apply elem_of_seq in Ht. apply Hdraw. lia. }
    rewrite length_seq in Hr. rewrite Hc, bind_ok.
    destruct (Z.eqb_spec num_trials 0); [lia|].
    eexists. split; [reflexivity|].
    assert (0 < inject_Z num_trials)%Q
      by (change 0%Q with (inject_Z 0); rewrite <- Zlt_Qlt; lia).
    assert (0 <= inject_Z c)%Q
      by (change 0%Q with (inject_Z 0); rewrite <- Zle_Qle; lia).
    assert (inject_Z c <= inject_Z num_trials)%Q
      by (rewrite <- Zle_Qle; lia).
    split.
    + apply Qle_shift_div_l; [assumption|]. lra.
    + apply Qle_shift_div_r; [assumption|]. lra.
  - intros t0 e Ht0 Hbefore Hfail.
    rewrite (sample_trials_loop_raise choice N D e (Z.to_nat num_trials) t0 0 0);
      [reflexivity|assumption| |assumption].
    intros t Ht. apply Hbefore, Ht.
Qed.

Lemma X16_witness :
  1 <= 3 /\
  (forall t, (t < Z.to_nat 3)%nat ->
             exists vs, (fun _ _ _ => Ok [[1; 1]; [1; -1]]) t 2 2 = Ok vs) /\
  exists q,
    sample.simulate_vector_distinctness (fun _ _ _ => Ok [[1; 1]; [1; -1]])
      2 2 3 = Ok q /\ (0 <= q <= 1)%Q.
Proof.
  assert (Hdraw : forall t : nat, (t < Z.to_nat 3)%nat ->
            exists vs, (fun _ _ _ => Ok [[1; 1]; [1; -1]]) t 2 2 = Ok vs).
  { intros t _. eexists. reflexivity. }
  split; [lia|]. split; [exact Hdraw|].
  apply (proj1 (proj2 (X16_sample_simulation_outcomes
                         (fun _ _ _ => Ok [[1; 1]; [1; -1]]) 2 2 3)));
    [lia|exact Hdraw].
Defined.

(** ** Printing the table of a sweep *)

Lemma elem_of_merge_sort {A} (R : relation A) `{forall x y, Decision (R x y)}
    (l : list A) x :
  x ∈ merge_sort R l <-> x ∈ l.
Proof. rewrite merge_sort_Permutation. reflexivity. Qed.

Lemma elem_of_distinct_sorted_Z l x : x ∈ distinct_sorted_Z l <-> x ∈ l.
Proof.
  unfold distinct_sorted_Z.
  rewrite elem_of_merge_sort, elem_of_elements, elem_of_list_to_set.
  reflexivity.
Qed.

Lemma elem_of_distinct_sorted_Qc l k :
  k ∈ distinct_sorted_Qc l <-> exists p, p ∈ l /\ Q2Qc p = k.
Proof.
  unfold distinct_sorted_Qc.
  rewrite elem_of_merge_sort, elem_of_elements, elem_of_list_to_set.
  rewrite list_elem_of_fmap. split; intros (p & H1 & H2); eauto.
Qed.

Lemma getitem_first {A} (l : list A) :
  getitem l 0 = match l with [] => Raise IndexError | x :: _ => Ok x end.
Proof. destruct l; reflexivity. Qed.

Lemma merge_sort_nil_iff {A} (R : relation A) `{forall x y, Decision (R x y)}
    (l : list A) :
  merge_sort R l = [] <-> l = [].
Proof.
  split; intros Hl.
  - apply Permutation_nil_r. rewrite <- Hl. symmetry.
    apply merge_sort_Permutation.
  - subst l. reflexivity.
Qed.

Lemma distinct_sorted_Z_nil l : distinct_sorted_Z l = [] <-> l = [].
Proof.
  unfold distinct_sorted_Z. rewrite merge_sort_nil_iff.
  split.
  - intros He. destruct l as [|x l]; [reflexivity|].
    assert (Hx : x ∈ elements (list_to_set (x :: l) : gset Z)).
    { apply elem_of_elements, elem_of_list_to_set, list_elem_of_here. }
    rewrite He in Hx. inversion Hx.
  - intros ->. apply elements_empty.
Qed.

(** The keys of a dict filled from the empty dict. *)
Lemma dom_fill {A K V} `{Countable K} (key : A -> K) (val : A -> V) xs :
  dom (fill key val ∅ xs) = list_to_set (key <$> xs).
Proof.
  apply set_eq. intros k. rewrite elem_of_dom, elem_of_list_to_set.
  split.
  - intros [v Hv]. apply fill_lookup_inv in Hv as [(x & Hx & <- & _)|Hv].
    + apply list_elem_of_fmap. eauto.
    + rewrite lookup_empty in Hv. discriminate.
  - intros Hk. destruct (fill key val ∅ xs !! k) eqn:E; [eauto|].
    exfalso. revert E. clear -Hk.
    induction xs as [|a xs IH] using rev_ind; [inversion Hk|].
    unfold fill. rewrite foldl_snoc.
    destruct (decide (key a = k)) as [<-|Hne].
    + rewrite lookup_insert_eq. discriminate.
    + rewrite lookup_insert_ne by assumption. apply IH.
      rewrite fmap_app in Hk. apply elem_of_app in Hk as [Hk|Hk]; [exact Hk|].
      apply list_elem_of_singleton in Hk. congruence.
Qed.

Lemma table_keys Ns ms probs :
  sorted_keys_Z (table_of Ns ms probs ∅) = distinct_sorted_Z Ns.
Proof.
  unfold sorted_keys_Z, distinct_sorted_Z.
  rewrite table_of_fill, dom_fill, list_fmap_id. reflexivity.
Qed.

Lemma row_keys N ms probs :
  sorted_keys_Z (row_of N ms probs ∅) = distinct_sorted_Z ms.
Proof.
  unfold sorted_keys_Z, distinct_sorted_Z.
  rewrite row_of_fill, dom_fill, list_fmap_id. reflexivity.
Qed.

Lemma cell_keys N m probs :
  sorted_keys_Qc (cell_of N m probs ∅) = distinct_sorted_Qc probs.
Proof.
  unfold sorted_keys_Qc, distinct_sorted_Qc.
  rewrite cell_of_fill, dom_fill. reflexivity.
Qed.

Lemma table_lookup Ns ms probs N :
  N ∈ Ns -> table_of Ns ms probs ∅ !! N = Some (row_of N ms probs ∅).
Proof.
  intros HN. rewrite table_of_fill.
  apply (fill_lookup_in (K := Z) id (fun N => row_of N ms probs ∅)); auto.
  intros x y Hxy. unfold id in Hxy. congruence.
Qed.

Lemma row_lookup N ms probs m :
  m ∈ ms -> row_of N ms probs ∅ !! m = Some (cell_of N m probs ∅).
Proof.
  intros Hm. rewrite row_of_fill.
  apply (fill_lookup_in (K := Z) id (fun m => cell_of N m probs ∅)); auto.
  intros x y Hxy. unfold id in Hxy. congruence.
Qed.

Lemma cell_lookup N m probs (k : Qc) :
  k ∈ distinct_sorted_Qc probs ->
  cell_of N m probs ∅ !! k = Some (dim_of N m k).
Proof.
  intros Hk. apply elem_of_distinct_sorted_Qc in Hk as (p & Hp & <-).
  rewrite cell_of_fill.
  rewrite (fill_lookup_in Q2Qc (dim_of N m) ∅ probs p (dim_of_key N m) Hp).
  f_equal. apply dim_of_key. symmetry. apply Q2Qc_eq_iff, Qred_correct.
Qed.

Section PrintingProofs.
Variable format_3f : Qc -> string.
Variable format_float_8 : Q -> string.
Variables (Ns ms : list Z) (probs : list Q).

Let res := table_of Ns ms probs ∅.

Lemma row_loop_table N m targets :
  N ∈ Ns -> m ∈ ms -> Forall (fun k => k ∈ distinct_sorted_Qc probs) targets ->
  forall row,
    row_loop format_float_8 res N m targets row =
    Ok (foldl (fun row (k : Qc) =>
                 row +:+ " " +:+ format_cell format_float_8 (dim_of N m k)
                 +:+ " |") row targets).
Proof.
  intros HN Hm. induction 1 as [|k targets Hk _ IH]; intros row;
    [reflexivity|].
  cbn [row_loop foldl]. unfold res.
  rewrite (dict_get_some _ _ _ (table_lookup Ns ms probs N HN)), bind_ok.
  rewrite (dict_get_some _ _ _ (row_lookup N ms probs m Hm)), bind_ok.
  rewrite (dict_get_some _ _ _ (cell_lookup N m probs k Hk)), bind_ok.
  apply IH.
Qed.

Lemma rows_loop_table N targets ms' :
  N ∈ Ns -> Forall (fun k => k ∈ distinct_sorted_Qc probs) targets ->
  Forall (fun m => m ∈ ms) ms' ->
  forall out,
    rows_loop format_float_8 res N ms' targets out =
    (out ++ map (fun m => row_text format_float_8 N m targets) ms', Ok tt).
Proof.
  intros HN Ht. induction 1 as [|m ms' Hm _ IH]; intros out.
  - cbn. rewrite app_nil_r. reflexivity.
  - cbn [rows_loop map]. rewrite (row_loop_table N m targets HN Hm Ht).
    rewrite IH, <- app_assoc. reflexivity.
Qed.

Lemma tables_loop_table targets ms' Ns' :
  Forall (fun k => k ∈ distinct_sorted_Qc probs) targets ->
  Forall (fun m => m ∈ ms) ms' ->
  Forall (fun N => N ∈ Ns) Ns' ->
  forall out,
    tables_loop format_3f format_float_8 res Ns' ms' targets out =
    (out ++ concat (map (fun N => block_text format_3f format_float_8 N ms'
                                   targets) Ns'), Ok tt).
Proof.
  intros Ht Hms. induction 1 as [|N Ns' HN _ IH]; intros out.
  - cbn. rewrite app_nil_r. reflexivity.
  - cbn [tables_loop map concat].
    rewrite (rows_loop_table N targets ms' HN Ht Hms), IH.
    unfold block_text. rewrite <- !app_assoc. reflexivity.
Qed.

End PrintingProofs.

Lemma sweep_table Ns ms probs : sweep Ns ms probs = Ok (table_of Ns ms probs ∅).
Proof.
  unfold sweep, calculate_required_dimensions,
    calculate_required_dimensions_run.
  rewrite N_loop_spec. reflexivity.
Qed.

Lemma Forall_distinct_sorted_Z l :
  Forall (fun x => x ∈ l) (distinct_sorted_Z l).
Proof. apply Forall_forall. intros x. apply elem_of_distinct_sorted_Z. Qed.

(** The dict of a sweep, printed. *)
Lemma print_sweep_table format_3f format_float_8 Ns ms probs :
  Ns <> [] -> ms <> [] ->
  exists res,
    sweep Ns ms probs = Ok res /\
    print_results_table format_3f format_float_8 res =
    (table_text format_3f format_float_8 Ns ms probs, Ok tt).
Proof.
  intros HNs Hms. exists (table_of Ns ms probs ∅).
  split; [apply sweep_table|].
  unfold print_results_table. rewrite table_keys, getitem_first.
  destruct (distinct_sorted_Z Ns) as [|N1 Ns1] eqn:ENs.
  { destruct (HNs (proj1 (distinct_sorted_Z_nil Ns) ENs)). }
  assert (HN1 : N1 ∈ Ns).
  { apply elem_of_distinct_sorted_Z. rewrite ENs. apply list_elem_of_here. }
  rewrite (dict_get_some _ _ _ (table_lookup Ns ms probs N1 HN1)).
  rewrite row_keys, getitem_first.
  destruct (distinct_sorted_Z ms) as [|m1 ms1] eqn:Ems.
  { destruct (Hms (proj1 (distinct_sorted_Z_nil ms) Ems)). }
  assert (Hm1 : m1 ∈ ms).
  { apply elem_of_distinct_sorted_Z. rewrite Ems. apply list_elem_of_here. }
  rewrite (dict_get_some _ _ _ (row_lookup N1 ms probs m1 Hm1)).
  rewrite cell_keys. rewrite <- ENs, <- Ems.
  rewrite tables_loop_table.
  - unfold table_text. reflexivity.
  - apply Forall_forall. auto.
  - apply Forall_distinct_sorted_Z.
  - apply Forall_distinct_sorted_Z.
Qed.



(** X18.  [print_results_table] on an empty dict, or on the dict of a sweep
    with no N value or no minimum distance, raises IndexError before it
    prints anything; a sweep with no target probability is printed, with
    rows that hold no cell. *)
Theorem X18_print_edge_cases format_3f format_float_8 :
  print_results_table format_3f format_float_8 ∅ = ([], Raise IndexError) /\
  (forall Ns ms probs res,
     sweep Ns ms probs = Ok res -> Ns = [] \/ ms = [] ->
     print_results_table format_3f format_float_8 res =
     ([], Raise IndexError)) /\
  (forall Ns ms res,
     sweep Ns ms [] = Ok res -> Ns <> [] -> ms <> [] ->
     exists out,
       print_results_table format_3f format_float_8 res = (out, Ok tt) /\
       forall N m, N ∈ Ns -> m ∈ ms -> centre (pretty m) 11 +:+ " |" ∈ out).
Proof.
  split; [|split].
  - unfold print_results_table, sorted_keys_Z.
    rewrite dom_empty_L, elements_empty. reflexivity.
  - intros Ns ms probs res Hres Hcase. rewrite sweep_table in Hres.
    injection Hres as <-.
    unfold print_results_table. rewrite table_keys, getitem_first.
    destruct (distinct_sorted_Z Ns) as [|N1 Ns1] eqn:ENs; [reflexivity|].
    assert (HN1 : N1 ∈ Ns).
    { apply elem_of_distinct_sorted_Z. rewrite ENs. apply list_elem_of_here. }
    destruct Hcase as [->| ->]; [inversion HN1|].
    rewrite (dict_get_some _ _ _ (table_lookup Ns [] probs N1 HN1)).
    reflexivity.
  - intros Ns ms res Hres HNs Hms.
    destruct (print_sweep_table format_3f format_float_8 Ns ms [] HNs Hms)
      as (res' & Hres' & Hprint).
    rewrite Hres in Hres'. injection Hres' as <-.
    eexists. split; [exact Hprint|].
    intros N m HN Hm. unfold table_text.
    apply elem_of_app. right. apply list_elem_of_In, in_concat.
    exists (block_text format_3f format_float_8 N (distinct_sorted_Z ms)
              (distinct_sorted_Qc [])).
    split.
    + apply in_map_iff. exists N. split; [reflexivity|].
      apply list_elem_of_In, elem_of_distinct_sorted_Z, HN.
    + apply list_elem_of_In. unfold block_text.
      apply elem_of_app. right. apply elem_of_app. left.
      apply list_elem_of_fmap. exists m. split; [reflexivity|].
      apply elem_of_distinct_sorted_Z, Hm.
Qed.

(** ** Degenerate calls *)




